(** * WavPatcher: scanning and patching WAV_EXTENSIBLE headers

    A shallow embedding of [wavpatcher.py].  The file system that the
    script walks is a finite map from path strings to nodes; the Python
    built-ins the script calls ([Path.exists], [Path.rglob], [open],
    [seek], [read], [write], [print]) are given as functions on that
    map, and [patch_wav_files] and [main] are transcribed on top of them
    in a state-and-exception monad.

    What the map leaves out: every path owns its bytes, so hard links
    and symbolic links, through which a write under one name shows
    under another, are not described; and paths are compared as
    written, so the directory argument is taken in the form that
    [str(Path(directory))] gives it. *)

From Stdlib Require Import ZArith String Ascii Lia.
From Stdlib.Strings Require Import Byte.
From stdpp Require Import base option list gmap strings fin_maps.

Local Open Scope Z_scope.

(** ** The file system *)

(** What the operating system may refuse on an open file.  Each flag
    makes the corresponding call raise [OSError]; [fault_write = Some k]
    makes [write] raise after [k] bytes of the data have reached the
    file. *)
Record file := mkFile {
  content : list Byte.byte;
  readable : bool;
  writable : bool;
  fault_seek_set : bool;
  fault_read : bool;
  fault_seek_cur : bool;
  fault_write : option nat
}.

Inductive node :=
| Directory
| Regular (f : file).

(** Paths are the strings [str(path)] gives, in pathlib's normal form. *)
Definition path_exists (m : gmap string node) (p : string) : bool :=
  bool_decide (is_Some (m !! p)).

Definition is_dir (m : gmap string node) (p : string) : bool :=
  match m !! p with
  | Some Directory => true
  | _ => false
  end.

Definition ends_with (suffix s : string) : bool :=
  (String.length suffix <=? String.length s)%nat &&
  String.eqb
    (substring (String.length s - String.length suffix)
               (String.length suffix) s)
    suffix.

(** [p] lies below [directory], at any depth, for a [directory] in
    pathlib's normal form (no trailing separator, not ["."]). *)
Definition below (directory p : string) : bool :=
  String.prefix (directory +:+ "/") p.

(** [fnmatch(name, '*.wav')] on the last component of [p]: as [".wav"]
    holds no separator, the name ends in it exactly when the path does. *)
Definition matches_wav (p : string) : bool := ends_with ".wav" p.

(** [list(process_dir.rglob('*.wav'))]: every entry below the directory,
    file or directory, whose name matches; nothing when [process_dir] is
    not a directory.  The order is the one the map enumerates its keys
    in. *)
Definition rglob_wav (m : gmap string node) (directory : string)
  : list string :=
  if is_dir m directory
  then filter (fun p => below directory p && matches_wav p)
              (map_to_list m).*1
  else [].

(** ** Exceptions, open files and printed lines *)

Inductive exn :=
| PermissionError
| FileNotFoundError
| IsADirectoryError
| UnsupportedOperation
| UnicodeEncodeError
| OSError.

Inductive open_mode := RB | RBplus.

Inductive whence := SEEK_SET | SEEK_CUR.

Record handle := mkHandle {
  h_path : string;
  h_mode : open_mode;
  h_pos : nat
}.

(** One constructor per [print] call of the script (standard output). *)
Inductive line :=
| LNoWavFound
| LBanner (simulate : bool)
| LDirectory (directory : string)
| LTotalToScan (total_files : nat)
| LFound (path : string)
| LPatched (path : string)
| LProgress (idx total_files : nat)
| LPermissionDenied (path : string)
| LError (path : string) (e : exn)
| LSummaryRule
| LSummaryHeader
| LTotalScanned (total_files : nat)
| LExtensibleFound (extensible_files : nat)
| LFilesPatched (extensible_files : nat)
| LListHeader
| LListItem (file_path : string).

(** The world the script runs in, with the two accumulators of
    [patch_wav_files]; [opened] records every call of [open]. *)
Record state := mkState {
  fs : gmap string node;
  stdout : list line;
  opened : list (string * open_mode);
  extensible_files : nat;
  patched_file_list : list string
}.

Definition initial (m : gmap string node) : state :=
  mkState m [] [] 0 [].

Definition set_fs (m : gmap string node) (s : state) : state :=
  mkState m (stdout s) (opened s) (extensible_files s) (patched_file_list s).

Definition put_line (l : line) (s : state) : state :=
  mkState (fs s) (stdout s ++ [l]) (opened s)
          (extensible_files s) (patched_file_list s).

Definition log_open (p : string) (md : open_mode) (s : state) : state :=
  mkState (fs s) (stdout s) (opened s ++ [(p, md)])
          (extensible_files s) (patched_file_list s).

(** [extensible_files += 1; patched_file_list.append(str(path))] *)
Definition count_match (p : string) (s : state) : state :=
  mkState (fs s) (stdout s) (opened s)
          (S (extensible_files s)) (patched_file_list s ++ [p]).

(** ** The monad: state that survives a raised exception *)

Definition M (A : Type) : Type := state -> (exn + A) * state.

Definition ret {A} (a : A) : M A := fun s => (inr a, s).

Definition raise {A} (e : exn) : M A := fun s => (inl e, s).

Definition bind {A B} (m : M A) (k : A -> M B) : M B :=
  fun s =>
    match m s with
    | (inl e, s') => (inl e, s')
    | (inr a, s') => k a s'
    end.

Definition modify (f : state -> state) : M unit := fun s => (inr tt, f s).

Definition when (b : bool) (m : M unit) : M unit := if b then m else ret tt.

Declare Scope wav_scope.
Delimit Scope wav_scope with wav.
Notation "x <- m ;; k" := (bind m (fun x => k))
  (at level 62, m at next level, right associativity) : wav_scope.
Notation "m ;;; k" := (bind m (fun _ => k))
  (at level 62, right associativity) : wav_scope.
Open Scope wav_scope.

(** [print] on a standard output that writes every line.  Python's
    [print] raises [UnicodeEncodeError] on text that the encoding of
    [sys.stdout] cannot write; [print_strict] below keeps that failure,
    and the definitions built on [print] describe the runs in which it
    does not occur. *)
Definition print (l : line) : M unit := modify (put_line l).

(** ** The built-ins on files *)

Definition may_open (f : file) (md : open_mode) : bool :=
  match md with
  | RB => readable f
  | RBplus => readable f && writable f
  end.

Definition open_file (p : string) (md : open_mode) : M handle :=
  fun s =>
    let s' := log_open p md s in
    match fs s !! p with
    | None => (inl FileNotFoundError, s')
    | Some Directory => (inl IsADirectoryError, s')
    | Some (Regular f) =>
        if may_open f md then (inr (mkHandle p md 0), s')
        else (inl PermissionError, s')
    end.

Definition file_of (h : handle) (s : state) : option file :=
  match fs s !! h_path h with
  | Some (Regular f) => Some f
  | _ => None
  end.

Definition seek (h : handle) (offset : Z) (w : whence) : M handle :=
  fun s =>
    match file_of h s with
    | None => (inl OSError, s)
    | Some f =>
        let faulty := match w with
                      | SEEK_SET => fault_seek_set f
                      | SEEK_CUR => fault_seek_cur f
                      end in
        let target := match w with
                      | SEEK_SET => offset
                      | SEEK_CUR => Z.of_nat (h_pos h) + offset
                      end in
        if faulty then (inl OSError, s)
        else if target <? 0 then (inl OSError, s)
        else (inr (mkHandle (h_path h) (h_mode h) (Z.to_nat target)), s)
    end.

(** [f.read(n)]: what is left of the file from the position on, [n]
    bytes at most; the position moves past what was read. *)
Definition read (h : handle) (n : nat) : M (list Byte.byte * handle) :=
  fun s =>
    match file_of h s with
    | None => (inl OSError, s)
    | Some f =>
        if fault_read f then (inl OSError, s)
        else
          let data := take n (drop (h_pos h) (content f)) in
          (inr (data, mkHandle (h_path h) (h_mode h)
                               (h_pos h + length data)), s)
    end.

(** Bytes [data] put at position [pos]: an overwrite in place, which
    pads with zeros when [pos] lies past the end and grows the file when
    the data runs past it. *)
Definition write_at (pos : nat) (data c : list Byte.byte)
  : list Byte.byte :=
  match data with
  | [] => c
  | _ => take pos c ++ replicate (pos - length c) x00
         ++ data ++ drop (pos + length data) c
  end.

Definition with_content (c : list Byte.byte) (f : file) : file :=
  mkFile c (readable f) (writable f) (fault_seek_set f) (fault_read f)
         (fault_seek_cur f) (fault_write f).

(** [f.write(data)]: the bytes go to the file that the path of the
    handle names, and to that entry of the map alone. *)
Definition write (h : handle) (data : list Byte.byte) : M handle :=
  fun s =>
    match h_mode h with
    | RB => (inl UnsupportedOperation, s)
    | RBplus =>
        match file_of h s with
        | None => (inl OSError, s)
        | Some f =>
            let commit d :=
              set_fs (<[h_path h :=
                        Regular (with_content (write_at (h_pos h) d (content f)) f)]>
                      (fs s)) s in
            match fault_write f with
            | Some k => (inl OSError, commit (take k data))
            | None =>
                (inr (mkHandle (h_path h) (h_mode h)
                               (h_pos h + length data)), commit data)
            end
        end
    end.

(** [int.from_bytes(bs, byteorder='little', signed=False)] *)
Definition int_from_bytes_little (bs : list Byte.byte) : Z :=
  fold_right (fun b acc => Z.of_N (Byte.to_N b) + 256 * acc) 0 bs.

(** ** [patch_wav_files] *)

Record result := mkResult {
  total_files : nat;
  r_extensible_files : nat;
  patched_files : list string;
  success : bool;
  error : option string;
  message : option string
}.

Definition rwmode (simulate : bool) : open_mode :=
  if simulate then RB else RBplus.

(** The body of the [try] block for one path: the [with open(...)]
    block, then the progress line. *)
Definition process_file (simulate verbose : bool) (total idx : nat)
    (path : string) : M unit :=
  (f <- open_file path (rwmode simulate) ;;
   f <- seek f 20 SEEK_SET ;;
   r <- read f 2 ;;
   let format_id_bytes := r.1 in
   let f := r.2 in
   let format_id := int_from_bytes_little format_id_bytes in
   if format_id =? 65534 then
     modify (count_match path) ;;;
     when verbose (print (if simulate then LFound path else LPatched path)) ;;;
     if negb simulate then
       f <- seek f (-2) SEEK_CUR ;;
       _ <- write f [x01; x00] ;;
       ret tt
     else ret tt
   else ret tt) ;;;
  when (verbose && (idx mod 100 =? 0)%nat) (print (LProgress idx total)).

(** One turn of the loop: the [try] block with its two handlers, both of
    which go on to the next path. *)
Definition try_file (simulate verbose : bool) (total idx : nat)
    (path : string) (s : state) : state :=
  match process_file simulate verbose total idx path s with
  | (inr _, s') => s'
  | (inl PermissionError, s') =>
      if verbose then put_line (LPermissionDenied path) s' else s'
  | (inl e, s') =>
      if verbose then put_line (LError path e) s' else s'
  end.

(** [for idx, path in enumerate(wav_files, 1)], from index [idx] on. *)
Fixpoint scan_loop (simulate verbose : bool) (total idx : nat)
    (wav_files : list string) (s : state) : state :=
  match wav_files with
  | [] => s
  | path :: rest =>
      scan_loop simulate verbose total (S idx) rest
                (try_file simulate verbose total idx path s)
  end.

Definition patch_wav_files (m : gmap string node) (directory : string)
    (simulate verbose : bool) : result * state :=
  let s := initial m in
  if negb (path_exists m directory) then
    (mkResult 0 0 [] false
              (Some ("Directory does not exist: " +:+ directory)) None,
     s)
  else
    let wav_files := rglob_wav m directory in
    let total := length wav_files in
    if (total =? 0)%nat then
      (mkResult 0 0 [] true None (Some "No WAV files found"),
       if verbose then put_line LNoWavFound s else s)
    else
      let s :=
        if verbose then
          put_line (LTotalToScan total)
            (put_line (LDirectory directory)
               (put_line (LBanner simulate) s))
        else s in
      let s := scan_loop simulate verbose total 1 wav_files s in
      (mkResult total (extensible_files s) (patched_file_list s)
                true None None,
       s).

(** ** [main] *)

Record args := mkArgs {
  directory : string;
  patch : bool;
  quiet : bool;
  list_flag : bool
}.

(** What a run of the program leaves: the exit code, the file system,
    both output streams and the files that were opened. *)
Record outcome := mkOutcome {
  exit_code : Z;
  final_fs : gmap string node;
  out : list line;
  err : list string;
  files_opened : list (string * open_mode)
}.

Definition main (m : gmap string node) (a : args) : outcome :=
  if negb (path_exists m (directory a)) then
    mkOutcome 1 m []
              ["Error: Directory does not exist: " +:+ directory a] []
  else if negb (is_dir m (directory a)) then
    mkOutcome 1 m []
              ["Error: Path is not a directory: " +:+ directory a] []
  else
    let '(results, s) :=
      patch_wav_files m (directory a) (negb (patch a)) (negb (quiet a)) in
    if negb (success results) then
      mkOutcome 1 (fs s) (stdout s)
                ["Error: " +:+ default "Unknown error" (error results)]
                (opened s)
    else
      let summary :=
        [LSummaryRule; LSummaryHeader; LSummaryRule;
         LTotalScanned (total_files results);
         LExtensibleFound (r_extensible_files results)] in
      let patched_line :=
        if patch a && (0 <? r_extensible_files results)%nat
        then [LFilesPatched (r_extensible_files results)] else [] in
      let listing :=
        if list_flag a && (0 <? r_extensible_files results)%nat
        then LListHeader :: map LListItem (patched_files results) else [] in
      mkOutcome 0 (fs s) (stdout s ++ summary ++ patched_line ++ listing)
                [] (opened s).

(** ** A standard output that can refuse a line

    The same code once more, with the failure of [print] kept:
    [encodable] says which strings the encoding of [sys.stdout] can
    write.  A path with undecodable bytes is never among them. *)

Section Encoding.

Variable encodable : string -> bool.

(** The text of a line can be written: only the directory and the paths
    vary, the rest is ASCII. *)
Definition line_ok (l : line) : bool :=
  match l with
  | LDirectory d => encodable d
  | LFound p | LPatched p | LPermissionDenied p | LError p _
  | LListItem p => encodable p
  | _ => true
  end.

Definition print_strict (l : line) : M unit :=
  fun s =>
    if line_ok l then (inr tt, put_line l s)
    else (inl UnicodeEncodeError, s).

Definition process_file_strict (simulate verbose : bool) (total idx : nat)
    (path : string) : M unit :=
  (f <- open_file path (rwmode simulate) ;;
   f <- seek f 20 SEEK_SET ;;
   r <- read f 2 ;;
   let format_id_bytes := r.1 in
   let f := r.2 in
   let format_id := int_from_bytes_little format_id_bytes in
   if format_id =? 65534 then
     modify (count_match path) ;;;
     when verbose
       (print_strict (if simulate then LFound path else LPatched path)) ;;;
     if negb simulate then
       f <- seek f (-2) SEEK_CUR ;;
       _ <- write f [x01; x00] ;;
       ret tt
     else ret tt
   else ret tt) ;;;
  when (verbose && (idx mod 100 =? 0)%nat)
       (print_strict (LProgress idx total)).

(** The [try] block with its handlers; what a handler's own [print]
    raises is not caught. *)
Definition try_file_strict (simulate verbose : bool) (total idx : nat)
    (path : string) : M unit :=
  fun s =>
    match process_file_strict simulate verbose total idx path s with
    | (inr _, s') => (inr tt, s')
    | (inl PermissionError, s') =>
        when verbose (print_strict (LPermissionDenied path)) s'
    | (inl e, s') =>
        when verbose (print_strict (LError path e)) s'
    end.

Fixpoint scan_loop_strict (simulate verbose : bool) (total idx : nat)
    (wav_files : list string) : M unit :=
  match wav_files with
  | [] => ret tt
  | path :: rest =>
      try_file_strict simulate verbose total idx path ;;;
      scan_loop_strict simulate verbose total (S idx) rest
  end.

(** [patch_wav_files], returning the exception when one escapes. *)
Definition patch_wav_files_strict (m : gmap string node)
    (directory : string) (simulate verbose : bool)
  : (exn + result) * state :=
  let s := initial m in
  if negb (path_exists m directory) then
    (inr (mkResult 0 0 [] false
            (Some ("Directory does not exist: " +:+ directory)) None),
     s)
  else
    let wav_files := rglob_wav m directory in
    let total := length wav_files in
    if (total =? 0)%nat then
      (when verbose (print_strict LNoWavFound) ;;;
       ret (mkResult 0 0 [] true None (Some "No WAV files found"))) s
    else
      (when verbose
         (print_strict (LBanner simulate) ;;;
          print_strict (LDirectory directory) ;;;
          print_strict (LTotalToScan total)) ;;;
       scan_loop_strict simulate verbose total 1 wav_files ;;;
       fun s' =>
         (inr (mkResult total (extensible_files s') (patched_file_list s')
                        true None None),
          s')) s.

End Encoding.

(** A standard output whose encoding is ASCII.  What it refuses
    includes every byte that UTF-8 refuses as well. *)
Definition ascii_only (t : string) : bool :=
  forallb (fun c => (nat_of_ascii c <? 128)%nat) (list_ascii_of_string t).

(** ** What one turn of the loop amounts to

    The definitions below do not come from the script: they say, in
    terms of the file system alone, what the theorems prove a run to
    do. *)

(** Bytes 20 and 21 of a file, or fewer when the file is too short. *)
Definition tag_bytes (c : list Byte.byte) : list Byte.byte :=
  take 2 (drop 20 c).

(** The bytes that the script gets to compare: those of the tag field,
    provided that [open], the first [seek] and [read] all succeed. *)
Definition read_tag (simulate : bool) (o : option node)
  : option (list Byte.byte) :=
  match o with
  | Some (Regular f) =>
      if may_open f (rwmode simulate) && negb (fault_seek_set f)
         && negb (fault_read f)
      then Some (tag_bytes (content f))
      else None
  | _ => None
  end.

Definition matching (simulate : bool) (o : option node) : bool :=
  match read_tag simulate o with
  | Some bs => int_from_bytes_little bs =? 65534
  | None => false
  end.


(** The part of [01 00] that reaches a matching file in patch mode. *)
Definition written (f : file) : list Byte.byte :=
  if fault_seek_cur f then []
  else match fault_write f with
       | Some k => take k [x01; x00]
       | None => [x01; x00]
       end.

Definition patched_node (simulate : bool) (n : node) : node :=
  match n with
  | Regular f =>
      if matching simulate (Some n) && negb simulate
      then Regular (with_content (write_at 20 (written f) (content f)) f)
      else n
  | Directory => Directory
  end.

(** The file system after the turn for path [p]. *)
Definition turn_fs (simulate : bool) (p : string) (m : gmap string node)
  : gmap string node :=
  match m !! p with
  | Some n => <[p := patched_node simulate n]> m
  | None => m
  end.

(** What a path adds to [extensible_files]. *)
Definition tally (simulate : bool) (o : option node) : nat :=
  if matching simulate o then 1%nat else 0%nat.

(** The paths of [wav_files] that a run over [m] counts. *)
Definition matches_of (simulate : bool) (m : gmap string node)
    (wav_files : list string) : list string :=
  filter (fun p => matching simulate (m !! p)) wav_files.

(** ** Sample trees *)

(** A 44-byte canonical header with format tag [t0 t1]. *)
Definition header (t0 t1 : Byte.byte) : list Byte.byte :=
  replicate 20 x00 ++ [t0; t1] ++ replicate 22 x00.

(** A file that every call succeeds on. *)
Definition sound (c : list Byte.byte) : file :=
  mkFile c true true false false false None.


(** [a.wav] with tag 1, [b.wav] and [c.wav] with tag 65534. *)
Definition music : gmap string node :=
  <["music" := Directory]>
    (<["music/a.wav" := Regular (sound (header x01 x00))]>
       (<["music/b.wav" := Regular (sound (header xfe xff))]>
          (<["music/c.wav" := Regular (sound (header xfe xff))]> ∅))).

(** One matching file whose name is the byte [FF] before [.wav]: a
    name that cannot be decoded, so that no encoding writes it. *)
Definition unprintable : string := "music/" +:+ String "255"%char ".wav".

Definition music_unprintable : gmap string node :=
  <["music" := Directory]>
    (<[unprintable := Regular (sound (header xfe xff))]> ∅).


Definition music_short : gmap string node :=
  <["music" := Directory]>
    (<["music/s.wav" := Regular (sound (replicate 21 xfe))]>
       (<["music/b.wav" := Regular (sound (header xfe xff))]> ∅)).

Definition music_no_wav : gmap string node :=
  <["music" := Directory]>
    (<["music/notes.txt" := Regular (sound (header xfe xff))]>
       (<["music/d.WAV" := Regular (sound (header xfe xff))]> ∅)).

(** An entry that cannot hold a tag at bytes 20-21: a directory, or a
    file of fewer than 22 bytes. *)
Definition tagless (n : node) : bool :=
  match n with
  | Directory => true
  | Regular f => (length (content f) <? 22)%nat
  end.





Local Close Scope Z_scope.

(** * Lemmas *)

(** ** Bytes and the tag field *)

Lemma byte_to_N_inj a b : Byte.to_N a = Byte.to_N b -> a = b.
Proof.
  intros H. pose proof (Byte.of_to_N a) as Ha.
  rewrite H, Byte.of_to_N in Ha. congruence.
Qed.

Lemma tag_65534_bytes (bs : list Byte.byte) :
  length bs <= 2 -> int_from_bytes_little bs = 65534%Z -> bs = [xfe; xff].
Proof.
  intros Hlen H.
  destruct bs as [|a [|b [|c bs]]]; simpl in *; try lia.
  - pose proof (Byte.to_N_bounded a). lia.
  - pose proof (Byte.to_N_bounded a). pose proof (Byte.to_N_bounded b).
    assert (Byte.to_N a = 254%N /\ Byte.to_N b = 255%N) as [Ha Hb] by lia.
    f_equal; [|f_equal]; apply byte_to_N_inj;
      [rewrite Ha|rewrite Hb]; reflexivity.
Qed.

Lemma tag_bytes_length c : length (tag_bytes c) = min 2 (length c - 20).
Proof. unfold tag_bytes. by rewrite length_take, length_drop. Qed.

Lemma tag_bytes_match c :
  int_from_bytes_little (tag_bytes c) = 65534%Z -> tag_bytes c = [xfe; xff].
Proof.
  intros H. apply tag_65534_bytes; [|done].
  rewrite tag_bytes_length. lia.
Qed.

Lemma with_content_id f : with_content (content f) f = f.
Proof. by destruct f. Qed.

(** ** One path *)

Ltac finish_run H :=
  inversion H; subst; simpl;
  rewrite ?app_nil_r, ?Nat.add_0_r, ?Nat.add_1_r, ?with_content_id;
  try (rewrite insert_id by done); repeat split; reflexivity.

Ltac crunch H :=
  cbn beta iota delta [fs stdout opened extensible_files patched_file_list
    log_open put_line count_match set_fs h_path h_mode h_pos fst snd negb
    andb] in H |- *.

(** Whatever the [try] block returns or raises, it leaves the state
    that [turn_fs], [tally] and [matching] describe. *)
Lemma process_file_spec simulate verbose total idx p s r s' :
  process_file simulate verbose total idx p s = (r, s') ->
  fs s' = turn_fs simulate p (fs s) /\
  opened s' = opened s ++ [(p, rwmode simulate)] /\
  extensible_files s' = extensible_files s + tally simulate (fs s !! p) /\
  patched_file_list s'
  = patched_file_list s ++ (if matching simulate (fs s !! p) then [p] else []).
Proof.
  unfold process_file, turn_fs, tally, matching, read_tag, patched_node,
    matching, read_tag, written.
  generalize (idx mod 100 =? 0). intros b.
  unfold bind, open_file, seek, read, write, file_of, when, print, modify, ret.
  change (Z.to_nat 20) with 20.
  intros H. crunch H.
  destruct (fs s !! p) as [[|f]|] eqn:E;
    [finish_run H| |finish_run H].
  destruct (may_open f (rwmode simulate)) eqn:Ho; crunch H;
    [|finish_run H].
  rewrite E in H.
  destruct (fault_seek_set f) eqn:Hs; crunch H; [finish_run H|].
  change (20 <? 0)%Z with false in H. crunch H. rewrite E in H.
  destruct (fault_read f) eqn:Hr; crunch H; [finish_run H|].
  change (take 2 (drop 20 (content f))) with (tag_bytes (content f)) in H.
  destruct (int_from_bytes_little (tag_bytes (content f)) =? 65534)%Z eqn:Ht.
  2:{ destruct verbose, b; crunch H; finish_run H. }
  apply Z.eqb_eq, tag_bytes_match in Ht. rewrite Ht in H.
  change (Z.of_nat (20 + length [xfe; xff]) + -2 <? 0)%Z with false in H.
  change (Z.to_nat (Z.of_nat (20 + length [xfe; xff]) + -2)) with 20 in H.
  destruct simulate; crunch H.
  { destruct verbose, b; crunch H; finish_run H. }
  destruct verbose; crunch H; rewrite E in H.
  all: destruct (fault_seek_cur f) eqn:Hc; crunch H; [finish_run H|].
  all: rewrite E in H; destruct (fault_write f) eqn:Hw; crunch H.
  all: destruct b; crunch H; finish_run H.
Qed.

(** ** The loop *)

Lemma try_file_spec simulate verbose total idx p s :
  let s' := try_file simulate verbose total idx p s in
  fs s' = turn_fs simulate p (fs s) /\
  opened s' = opened s ++ [(p, rwmode simulate)] /\
  extensible_files s' = extensible_files s + tally simulate (fs s !! p) /\
  patched_file_list s'
  = patched_file_list s ++ (if matching simulate (fs s !! p) then [p] else []).
Proof.
  unfold try_file.
  destruct (process_file simulate verbose total idx p s) as [r s'] eqn:H.
  apply process_file_spec in H.
  destruct r as [[]|]; destruct verbose; simpl; exact H.
Qed.

Lemma turn_fs_lookup simulate p m q :
  turn_fs simulate p m !! q
  = if decide (p = q) then patched_node simulate <$> m !! p else m !! q.
Proof.
  unfold turn_fs. destruct (m !! p) as [n|] eqn:E.
  - rewrite lookup_insert. case_decide; [by subst|done].
  - case_decide; [by subst; rewrite E|done].
Qed.

Lemma turn_fs_lookup_ne simulate p m q :
  p ≠ q -> turn_fs simulate p m !! q = m !! q.
Proof. intros. rewrite turn_fs_lookup. by case_decide. Qed.

Lemma filter_ext_elem {A} (P Q : A -> Prop) `{!∀ x, Decision (P x)}
    `{!∀ x, Decision (Q x)} (l : list A) :
  (∀ x, x ∈ l -> P x <-> Q x) -> filter P l = filter Q l.
Proof.
  induction l as [|a l IH]; intros Hext; [done|].
  rewrite !filter_cons, IH by (intros; apply Hext, elem_of_cons; by right).
  apply decide_ext, Hext, elem_of_cons. by left.
Qed.

Lemma scan_loop_opened simulate verbose total l : forall idx s,
  opened (scan_loop simulate verbose total idx l s)
  = opened s ++ map (fun p => (p, rwmode simulate)) l.
Proof.
  induction l as [|p l IH]; intros idx s; simpl.
  - by rewrite app_nil_r.
  - rewrite IH. destruct (try_file_spec simulate verbose total idx p s)
      as (_ & -> & _). by rewrite <- app_assoc.
Qed.

Lemma scan_loop_lookup simulate verbose total l : forall idx s q,
  NoDup l ->
  fs (scan_loop simulate verbose total idx l s) !! q
  = if decide (q ∈ l) then patched_node simulate <$> fs s !! q
    else fs s !! q.
Proof.
  induction l as [|p l IH]; intros idx s q Hnd; cbn [scan_loop].
  - rewrite decide_False; [done|apply not_elem_of_nil].
  - apply NoDup_cons in Hnd as [Hp Hnd].
    rewrite IH by done.
    destruct (try_file_spec simulate verbose total idx p s) as (-> & _).
    rewrite turn_fs_lookup.
    destruct (decide (p = q)) as [->|Hpq].
    + rewrite (decide_False (P := q ∈ l)) by done.
      rewrite (decide_True (P := q ∈ q :: l)) by (apply elem_of_cons; by left).
      done.
    + destruct (decide (q ∈ l)) as [Hq|Hq].
      * rewrite (decide_True (P := q ∈ p :: l))
          by (apply elem_of_cons; by right).
        done.
      * rewrite (decide_False (P := q ∈ p :: l)); [done|].
        intros [?|?]%elem_of_cons; by subst.
Qed.

Lemma scan_loop_counts simulate verbose total l : forall idx s,
  NoDup l ->
  let s' := scan_loop simulate verbose total idx l s in
  patched_file_list s' = patched_file_list s ++ matches_of simulate (fs s) l /\
  extensible_files s'
  = extensible_files s + length (matches_of simulate (fs s) l).
Proof.
  unfold matches_of.
  induction l as [|p l IH]; intros idx s Hnd; simpl.
  - by rewrite app_nil_r, Nat.add_0_r.
  - apply NoDup_cons in Hnd as [Hp Hnd].
    destruct (IH (S idx) (try_file simulate verbose total idx p s) Hnd)
      as [-> ->].
    destruct (try_file_spec simulate verbose total idx p s)
      as (Hfs & _ & -> & ->).
    rewrite Hfs, filter_cons.
    rewrite (filter_ext_elem
               (fun q => matching simulate (turn_fs simulate p (fs s) !! q))
               (fun q => matching simulate (fs s !! q)) l).
    2:{ intros q Hq. rewrite turn_fs_lookup_ne; [done|]. by intros ->. }
    unfold tally. destruct (matching simulate (fs s !! p)) eqn:Hm; simpl.
    + rewrite <- app_assoc. split; [done|simpl; lia].
    + rewrite app_nil_r. split; [done|lia].
Qed.

(** ** Discovery *)

Lemma rglob_wav_NoDup m directory : NoDup (rglob_wav m directory).
Proof.
  unfold rglob_wav. destruct (is_dir m directory); [|constructor].
  apply NoDup_filter, NoDup_fst_map_to_list.
Qed.

Lemma elem_of_rglob_wav m directory p :
  p ∈ rglob_wav m directory <->
  is_dir m directory = true /\ is_Some (m !! p) /\
  below directory p = true /\ matches_wav p = true.
Proof.
  unfold rglob_wav. destruct (is_dir m directory).
  - rewrite list_elem_of_filter, list_elem_of_fmap.
    rewrite andb_True, !Is_true_true. split.
    + intros [[Hb Hw] [[q n] [-> Hin]]].
      apply elem_of_map_to_list in Hin. simpl in *. eauto.
    + intros (_ & [n Hn] & Hb & Hw). split; [done|].
      exists (p, n). split; [done|]. by apply elem_of_map_to_list.
  - rewrite elem_of_nil. split; [done|]. by intros [? _].
Qed.

Lemma path_exists_true m p : path_exists m p = true <-> is_Some (m !! p).
Proof. unfold path_exists. apply bool_decide_eq_true. Qed.

Lemma is_dir_exists m p : is_dir m p = true -> path_exists m p = true.
Proof.
  unfold is_dir. intros H. apply path_exists_true.
  destruct (m !! p) as [[]|]; by eauto.
Qed.

(** ** The whole run *)

Lemma patch_wav_files_missing m directory simulate verbose :
  path_exists m directory = false ->
  patch_wav_files m directory simulate verbose
  = (mkResult 0 0 [] false
       (Some ("Directory does not exist: " +:+ directory)) None,
     initial m).
Proof. unfold patch_wav_files. by intros ->. Qed.

Lemma rglob_wav_missing m directory :
  path_exists m directory = false -> rglob_wav m directory = [].
Proof.
  intros H. unfold rglob_wav.
  destruct (is_dir m directory) eqn:E; [|done].
  apply is_dir_exists in E. congruence.
Qed.

(** What a run returns and leaves behind, read off the file system it
    started from. *)
Lemma patch_wav_files_spec m directory simulate verbose :
  let wav_files := rglob_wav m directory in
  let r := (patch_wav_files m directory simulate verbose).1 in
  let s := (patch_wav_files m directory simulate verbose).2 in
  total_files r = length wav_files /\
  patched_files r = matches_of simulate m wav_files /\
  r_extensible_files r = length (matches_of simulate m wav_files) /\
  success r = path_exists m directory /\
  error r = (if path_exists m directory then None
             else Some ("Directory does not exist: " +:+ directory)) /\
  message r = (if path_exists m directory && (length wav_files =? 0)
               then Some "No WAV files found" else None) /\
  opened s = map (fun p => (p, rwmode simulate)) wav_files /\
  (forall q, fs s !! q
             = if decide (q ∈ wav_files)
               then patched_node simulate <$> m !! q else m !! q).
Proof.
  intros wav_files r s. subst r s. unfold patch_wav_files.
  pose proof (rglob_wav_NoDup m directory) as Hnd.
  destruct (path_exists m directory) eqn:Hex; simpl.
  2:{ subst wav_files. rewrite rglob_wav_missing by done.
      repeat split; try done. }
  change (rglob_wav m directory) with wav_files in Hnd |- *.
  destruct (length wav_files =? 0) eqn:Hlen.
  { pose proof Hlen as Hlen'. apply Nat.eqb_eq, nil_length_inv in Hlen.
    rewrite Hlen.
    repeat split; try done; destruct verbose; try done; intros q; done. }
  simpl. set (s0 := if verbose then _ else _).
  assert (fs s0 = m /\ opened s0 = [] /\ extensible_files s0 = 0
          /\ patched_file_list s0 = []) as (Hfs & Hop & He & Hp).
  { subst s0. destruct verbose; done. }
  destruct (scan_loop_counts simulate verbose (length wav_files) wav_files
              1 s0 Hnd) as [Hc1 Hc2].
  rewrite Hfs, Hp in Hc1. rewrite Hfs, He in Hc2.
  repeat split; try done.
  - by rewrite scan_loop_opened, Hop.
  - intros q. by rewrite scan_loop_lookup, Hfs.
Qed.

(** ** Overwriting the tag field *)


Lemma tag_bytes_long c a b : tag_bytes c = [a; b] -> 22 <= length c.
Proof.
  intros H. assert (length (tag_bytes c) = 2) as Hl by (by rewrite H).
  rewrite tag_bytes_length in Hl. lia.
Qed.


(** An overwrite of at most two bytes at offset 20 of a file of 22 bytes
    or more keeps the length and every byte but those two. *)
Lemma write_at_frame c d :
  22 <= length c -> length d <= 2 ->
  length (write_at 20 d c) = length c /\
  take 20 (write_at 20 d c) = take 20 c /\
  drop 22 (write_at 20 d c) = drop 22 c.
Proof.
  intros Hc Hd. unfold write_at. destruct d as [|x d]; [done|].
  replace (20 - length c) with 0 by lia. simpl replicate.
  rewrite app_nil_l.
  split; [|split].
  - rewrite !length_app, length_take, length_drop. lia.
  - rewrite take_app_le by (rewrite length_take; lia).
    rewrite take_take. f_equal.
  - rewrite drop_app_ge by (rewrite length_take; lia).
    rewrite length_take. replace (22 - 20 `min` length c) with 2 by lia.
    destruct d as [|y [|z d]]; simpl in *; try lia.
    + by rewrite drop_drop.
    + done.
Qed.

Lemma result_eq r r' :
  total_files r = total_files r' ->
  r_extensible_files r = r_extensible_files r' ->
  patched_files r = patched_files r' ->
  success r = success r' ->
  error r = error r' ->
  message r = message r' ->
  r = r'.
Proof. destruct r, r'; simpl; intros; by subst. Qed.

Lemma elem_of_matches_of simulate m l p :
  p ∈ matches_of simulate m l <-> matching simulate (m !! p) = true /\ p ∈ l.
Proof. unfold matches_of. by rewrite list_elem_of_filter, Is_true_true. Qed.

Lemma matching_Regular simulate f :
  matching simulate (Some (Regular f)) = true <->
  may_open f (rwmode simulate) = true /\ fault_seek_set f = false /\
  fault_read f = false /\
  int_from_bytes_little (tag_bytes (content f)) = 65534%Z.
Proof.
  unfold matching, read_tag.
  destruct (may_open f (rwmode simulate)), (fault_seek_set f),
    (fault_read f); simpl; rewrite ?Z.eqb_eq; intuition congruence.
Qed.

(** * The claims *)



(** C4: in every result, [extensible_files] is the length of
    [patched_files] and does not exceed [total_files]. *)
Theorem result_counts_agree m directory simulate verbose :
  let r := (patch_wav_files m directory simulate verbose).1 in
  r_extensible_files r = length (patched_files r) /\
  r_extensible_files r <= total_files r.
Proof.
  intros r.
  destruct (patch_wav_files_spec m directory simulate verbose)
    as (Ht & Hpf & He & _).
  fold r in Ht, Hpf, He. rewrite He, Hpf, Ht. split; [done|].
  apply length_filter.
Qed.

(** On a standard output that writes every line, the verbose flag
    changes nothing but what is printed: the result, the file system
    left behind and the files opened are the same with and without
    it. *)
Lemma verbose_only_prints m directory simulate :
  let loud := patch_wav_files m directory simulate true in
  let quiet := patch_wav_files m directory simulate false in
  loud.1 = quiet.1 /\
  fs loud.2 = fs quiet.2 /\
  opened loud.2 = opened quiet.2.
Proof.
  intros loud quiet.
  destruct (patch_wav_files_spec m directory simulate true)
    as (Ht & Hpf & He & Hs & Her & Hm & Ho & Hfs).
  destruct (patch_wav_files_spec m directory simulate false)
    as (Ht' & Hpf' & He' & Hs' & Her' & Hm' & Ho' & Hfs').
  fold loud in Ht, Hpf, He, Hs, Her, Hm, Ho, Hfs.
  fold quiet in Ht', Hpf', He', Hs', Her', Hm', Ho', Hfs'.
  split; [|split].
  - apply result_eq; congruence.
  - apply map_eq. intros q. by rewrite Hfs, Hfs'.
  - congruence.
Qed.

(** ** When [print] fails *)

Lemma print_strict_ok encodable l s :
  line_ok encodable l = true -> print_strict encodable l s = print l s.
Proof. unfold print_strict, print, modify. by intros ->. Qed.

(** A quiet run prints nothing, so it cannot fail on a line: it is the
    run of the first embedding. *)
Lemma process_file_strict_quiet encodable simulate total idx p s :
  process_file_strict encodable simulate false total idx p s
  = process_file simulate false total idx p s.
Proof. reflexivity. Qed.

Lemma try_file_strict_quiet encodable simulate total idx p s :
  try_file_strict encodable simulate false total idx p s
  = (inr tt, try_file simulate false total idx p s).
Proof.
  unfold try_file_strict, try_file. rewrite process_file_strict_quiet.
  destruct (process_file simulate false total idx p s) as [[[]|] s'];
    reflexivity.
Qed.

Lemma scan_loop_strict_quiet encodable simulate total l : forall idx s,
  scan_loop_strict encodable simulate false total idx l s
  = (inr tt, scan_loop simulate false total idx l s).
Proof.
  induction l as [|p l IH]; intros idx s; [done|].
  cbn [scan_loop_strict scan_loop]. unfold bind at 1.
  by rewrite try_file_strict_quiet, IH.
Qed.

Lemma patch_wav_files_strict_quiet encodable m directory simulate :
  patch_wav_files_strict encodable m directory simulate false
  = (inr (patch_wav_files m directory simulate false).1,
     (patch_wav_files m directory simulate false).2).
Proof.
  unfold patch_wav_files_strict, patch_wav_files.
  destruct (path_exists m directory); [|done]. cbn [negb].
  destruct (length (rglob_wav m directory) =? 0); [done|].
  cbn [when]. unfold bind, ret. by rewrite scan_loop_strict_quiet.
Qed.

(** C9: the code does not keep the verbose flag out of the result.  On
    a tree with one matching file whose name standard output cannot
    write, the verbose patch run counts the file, fails to print its
    [[PATCHED]] line before the write-back, fails again to print the
    [[ERROR]] line in the handler and leaves [patch_wav_files] with
    that exception and the file unpatched; the quiet run returns a
    result that lists the file and patches it. *)
Theorem verbose_run_aborts_on_unprintable_name :
  let loud :=
    patch_wav_files_strict ascii_only music_unprintable "music" false true in
  let quiet :=
    patch_wav_files_strict ascii_only music_unprintable "music" false false in
  loud.1 = inl UnicodeEncodeError /\
  fs loud.2 !! unprintable = Some (Regular (sound (header xfe xff))) /\
  quiet.1 = inr (mkResult 1 1 [unprintable] true None None) /\
  fs quiet.2 !! unprintable = Some (Regular (sound (header x01 x00))).
Proof. vm_compute. repeat split; reflexivity. Qed.

(** A standard output that writes every string: the run is the run of
    the first embedding, verbose or not. *)
Lemma line_ok_all encodable l :
  (forall t, encodable t = true) -> line_ok encodable l = true.
Proof. intros H. destruct l; simpl; auto. Qed.

Lemma process_file_strict_ok encodable simulate verbose total idx p s :
  (forall t, encodable t = true) ->
  process_file_strict encodable simulate verbose total idx p s
  = process_file simulate verbose total idx p s.
Proof.
  intros H. unfold process_file_strict, process_file, print_strict.
  rewrite !(line_ok_all encodable) by done. reflexivity.
Qed.

Lemma try_file_strict_ok encodable simulate verbose total idx p s :
  (forall t, encodable t = true) ->
  try_file_strict encodable simulate verbose total idx p s
  = (inr tt, try_file simulate verbose total idx p s).
Proof.
  intros H. unfold try_file_strict, try_file.
  rewrite process_file_strict_ok by done.
  destruct (process_file simulate verbose total idx p s) as [[e|] s'];
    [|done].
  destruct e, verbose; cbn [when]; rewrite ?print_strict_ok; try done;
    by apply line_ok_all.
Qed.

Lemma scan_loop_strict_ok encodable simulate verbose total l :
  (forall t, encodable t = true) ->
  forall idx s,
    scan_loop_strict encodable simulate verbose total idx l s
    = (inr tt, scan_loop simulate verbose total idx l s).
Proof.
  intros H. induction l as [|p l IH]; intros idx s; [done|].
  cbn [scan_loop_strict scan_loop]. unfold bind at 1.
  by rewrite try_file_strict_ok, IH.
Qed.

Lemma patch_wav_files_strict_ok encodable m directory simulate verbose :
  (forall t, encodable t = true) ->
  patch_wav_files_strict encodable m directory simulate verbose
  = (inr (patch_wav_files m directory simulate verbose).1,
     (patch_wav_files m directory simulate verbose).2).
Proof.
  intros H. unfold patch_wav_files_strict, patch_wav_files.
  destruct (path_exists m directory); [|done]. cbn [negb].
  destruct (length (rglob_wav m directory) =? 0).
  { destruct verbose; [|done]. cbn [when]. unfold bind, ret.
    by rewrite print_strict_ok by (by apply line_ok_all). }
  destruct verbose; cbn [when]; unfold bind, ret;
    repeat (rewrite print_strict_ok by (by apply line_ok_all);
            unfold print, modify; cbn beta iota);
    by rewrite scan_loop_strict_ok.
Qed.

(** ** [main] *)

Lemma main_exit_code_dir m a :
  is_dir m (directory a) = true -> exit_code (main m a) = 0%Z.
Proof.
  intros Hd. unfold main.
  rewrite (is_dir_exists _ _ Hd), Hd. simpl.
  destruct (patch_wav_files_spec m (directory a) (negb (patch a))
              (negb (quiet a))) as (_ & _ & _ & Hs & _).
  rewrite (is_dir_exists _ _ Hd) in Hs.
  destruct (patch_wav_files m (directory a) (negb (patch a))
              (negb (quiet a))) as [r s].
  simpl in Hs. by rewrite Hs.
Qed.

Lemma rglob_wav_none m directory :
  (forall p, is_Some (m !! p) -> below directory p = true ->
             matches_wav p = false) ->
  rglob_wav m directory = [].
Proof.
  intros H. apply elem_of_nil_inv. intros p Hin.
  apply elem_of_rglob_wav in Hin as (_ & Hp & Hb & Hw).
  rewrite (H p Hp Hb) in Hw. discriminate.
Qed.

(** C6: when the root path does not exist, [patch_wav_files] returns
    [success = false], zero counts, no paths and an error message that
    ends in the path, leaving the file system as it was and opening
    nothing; [main] exits with code 1, likewise. *)
Theorem missing_directory_reported m a simulate verbose :
  m !! directory a = None ->
  patch_wav_files m (directory a) simulate verbose
  = (mkResult 0 0 [] false
       (Some ("Directory does not exist: " +:+ directory a)) None,
     mkState m [] [] 0 []) /\
  main m a
  = mkOutcome 1 m []
      ["Error: Directory does not exist: " +:+ directory a] [].
Proof.
  intros Hm.
  assert (path_exists m (directory a) = false) as Hex.
  { unfold path_exists. apply bool_decide_eq_false. rewrite Hm.
    by intros [? ?]. }
  split.
  - by apply patch_wav_files_missing.
  - unfold main. by rewrite Hex.
Qed.

Lemma missing_directory_reported_witness :
  success (patch_wav_files music "nowhere" false true).1 = false /\
  exit_code (main music (mkArgs "nowhere" true false true)) = 1%Z /\
  final_fs (main music (mkArgs "nowhere" true false true)) = music.
Proof.
  destruct (missing_directory_reported music
              (mkArgs "nowhere" true false true) false true) as [H1 H2].
  { reflexivity. }
  simpl in H1. rewrite H1, H2. repeat split; reflexivity.
Defined.

(** C8: when the root is a directory below which no entry ends in
    [.wav], [patch_wav_files] returns [success = true], zero counts, no
    paths and the message, reads and changes nothing, and [main] exits
    with code 0. *)
Theorem no_wav_files_is_success m a simulate verbose :
  is_dir m (directory a) = true ->
  (forall p, is_Some (m !! p) -> below (directory a) p = true ->
             matches_wav p = false) ->
  (patch_wav_files m (directory a) simulate verbose).1
  = mkResult 0 0 [] true None (Some "No WAV files found") /\
  fs (patch_wav_files m (directory a) simulate verbose).2 = m /\
  opened (patch_wav_files m (directory a) simulate verbose).2 = [] /\
  exit_code (main m a) = 0%Z.
Proof.
  intros Hd Hnone.
  pose proof (rglob_wav_none _ _ Hnone) as Hw.
  split; [|split; [|split]].
  - unfold patch_wav_files. rewrite (is_dir_exists _ _ Hd), Hw. done.
  - unfold patch_wav_files. rewrite (is_dir_exists _ _ Hd), Hw. simpl.
    by destruct verbose.
  - unfold patch_wav_files. rewrite (is_dir_exists _ _ Hd), Hw. simpl.
    by destruct verbose.
  - by apply main_exit_code_dir.
Qed.

Lemma no_wav_files_is_success_witness :
  (patch_wav_files music_no_wav "music" true true).1
  = mkResult 0 0 [] true None (Some "No WAV files found") /\
  exit_code (main music_no_wav (mkArgs "music" false false false)) = 0%Z.
Proof.
  destruct (no_wav_files_is_success music_no_wav
              (mkArgs "music" false false false) true true)
    as (H1 & _ & _ & H4).
  - vm_compute. reflexivity.
  - intros p [n Hp] Hb.
    assert (p ∈ (map_to_list music_no_wav).*1) as Hin.
    { apply list_elem_of_fmap. exists (p, n). split; [done|].
      by apply elem_of_map_to_list. }
    assert ((map_to_list music_no_wav).*1
            = ["music/notes.txt"; "music/d.WAV"; "music"]) as Hkeys
      by (vm_compute; reflexivity).
    rewrite Hkeys in Hin. apply list_elem_of_In in Hin.
    destruct Hin as [<-|[<-|[<-|[]]]]; vm_compute; reflexivity.
  - split; [exact H1|exact H4].
Defined.

Lemma short_file_no_match simulate f :
  length (content f) < 22 -> matching simulate (Some (Regular f)) = false.
Proof.
  intros Hlen. apply not_true_is_false. intros Hm.
  apply matching_Regular in Hm as (_ & _ & _ & Ht).
  apply tag_bytes_match, tag_bytes_long in Ht. lia.
Qed.

Lemma not_matching_kept simulate n :
  matching simulate (Some n) = false -> patched_node simulate n = n.
Proof. intros H. destruct n as [|f]; [done|]. simpl. by rewrite H. Qed.

(** * Further properties *)

(** ** What a run leaves on disk *)

Lemma written_length f : length (written f) <= 2.
Proof.
  unfold written. destruct (fault_seek_cur f); [simpl; lia|].
  destruct (fault_write f); [rewrite length_take|]; simpl; lia.
Qed.

Lemma matching_long simulate f :
  matching simulate (Some (Regular f)) = true ->
  tag_bytes (content f) = [xfe; xff] /\ 22 <= length (content f).
Proof.
  intros (_ & _ & _ & Ht)%matching_Regular.
  apply tag_bytes_match in Ht. split; [done|]. by eapply tag_bytes_long.
Qed.

Lemma patched_node_frame simulate f :
  exists c',
    patched_node simulate (Regular f) = Regular (with_content c' f) /\
    length c' = length (content f) /\
    take 20 c' = take 20 (content f) /\
    drop 22 c' = drop 22 (content f).
Proof.
  unfold patched_node.
  destruct (matching simulate (Some (Regular f))) eqn:Hm; simpl.
  - destruct simulate; simpl.
    + exists (content f). by rewrite with_content_id.
    + eexists. split; [done|].
      apply write_at_frame; [by apply matching_long in Hm as [_ ?]|].
      apply written_length.
  - exists (content f). by rewrite with_content_id.
Qed.

Lemma patched_node_dry n : patched_node true n = n.
Proof.
  destruct n as [|f]; [done|]. simpl. by rewrite andb_false_r.
Qed.

(** X1: a dry run ([simulate = True]) leaves every file as it was,
    whatever the files hold and whichever calls on them fail. *)
Theorem dry_run_changes_nothing m directory verbose :
  fs (patch_wav_files m directory true verbose).2 = m.
Proof.
  destruct (patch_wav_files_spec m directory true verbose)
    as (_ & _ & _ & _ & _ & _ & _ & Hfs).
  apply map_eq. intros q. rewrite Hfs. case_decide; [|done].
  destruct (m !! q) as [n|]; [|done]. simpl. by rewrite patched_node_dry.
Qed.

(** X2: in either mode a run keeps every path's kind, and of a regular
    file it keeps the length, the first 20 bytes, everything from byte
    22 on, and the permissions: only bytes 20 and 21 can differ. *)
Theorem run_touches_only_the_tag m directory simulate verbose p :
  let s := (patch_wav_files m directory simulate verbose).2 in
  match m !! p with
  | Some (Regular f) =>
      exists c',
        fs s !! p = Some (Regular (with_content c' f)) /\
        length c' = length (content f) /\
        take 20 c' = take 20 (content f) /\
        drop 22 c' = drop 22 (content f)
  | o => fs s !! p = o
  end.
Proof.
  intros s.
  destruct (patch_wav_files_spec m directory simulate verbose)
    as (_ & _ & _ & _ & _ & _ & _ & Hfs).
  fold s in Hfs. rewrite Hfs.
  destruct (m !! p) as [[|f]|] eqn:Hp; try (by case_decide).
  destruct (patched_node_frame simulate f) as (c' & Hn & Hrest).
  case_decide.
  - exists c'.
    change (patched_node simulate <$> Some (Regular f))
      with (Some (patched_node simulate (Regular f))).
    by rewrite Hn.
  - exists (content f). by rewrite with_content_id.
Qed.


Lemma listed_iff m directory simulate verbose p :
  p ∈ patched_files (patch_wav_files m directory simulate verbose).1 <->
  matching simulate (m !! p) = true /\ p ∈ rglob_wav m directory.
Proof.
  destruct (patch_wav_files_spec m directory simulate verbose)
    as (_ & -> & _). apply elem_of_matches_of.
Qed.

Lemma run_lookup m directory simulate verbose q :
  fs (patch_wav_files m directory simulate verbose).2 !! q
  = if decide (q ∈ rglob_wav m directory)
    then patched_node simulate <$> m !! q else m !! q.
Proof.
  destruct (patch_wav_files_spec m directory simulate verbose)
    as (_ & _ & _ & _ & _ & _ & _ & Hfs). apply Hfs.
Qed.







(** ** Two runs *)


Lemma patched_node_is_dir simulate n :
  patched_node simulate n = Directory <-> n = Directory.
Proof.
  destruct n as [|f]; [done|]. simpl.
  destruct (matching simulate (Some (Regular f)) && negb simulate); done.
Qed.








(** ** Which entries match *)

Lemma filter_ext_elem_id {A} (P : A -> Prop) `{!∀ x, Decision (P x)}
    (l : list A) :
  (forall x, x ∈ l -> P x) -> filter P l = l.
Proof.
  induction l as [|a l IH]; intros Hall; [done|].
  rewrite filter_cons, decide_True by (apply Hall, elem_of_cons; by left).
  f_equal. apply IH. intros x Hx. apply Hall, elem_of_cons. by right.
Qed.

Lemma length_without {A} `{EqDecision A} (l : list A) (x : A) :
  NoDup l -> x ∈ l -> length l = S (length (filter (fun y => y <> x) l)).
Proof.
  induction l as [|a l IH]; intros Hnd Hin; [by apply elem_of_nil in Hin|].
  apply NoDup_cons in Hnd as [Ha Hnd]. rewrite filter_cons.
  destruct (decide (a = x)) as [->|Hne].
  - rewrite decide_False by (by intros ?). simpl. f_equal.
    f_equal. symmetry. apply filter_ext_elem_id. intros y Hy ->. done.
  - rewrite decide_True by done. simpl. f_equal. apply IH; [done|].
    apply elem_of_cons in Hin as [->|?]; done.
Qed.

(** X7: an entry that cannot hold a tag (a directory, or a file
    shorter than 22 bytes) is never listed and is left as it was; when
    it is a discovered entry it counts for one in [total_files], which
    is one more than the number of the other discovered entries. *)
Theorem tagless_entry_is_skipped m directory simulate verbose p n :
  m !! p = Some n ->
  tagless n = true ->
  let r := (patch_wav_files m directory simulate verbose).1 in
  let s := (patch_wav_files m directory simulate verbose).2 in
  (p ∉ patched_files r) /\
  fs s !! p = Some n /\
  (p ∈ rglob_wav m directory ->
   total_files r
   = S (length (filter (fun q => q <> p) (rglob_wav m directory)))).
Proof.
  intros Hp Ht r s.
  assert (matching simulate (Some n) = false) as Hno.
  { destruct n as [|f]; [done|]. apply short_file_no_match.
    simpl in Ht. by apply Nat.ltb_lt in Ht. }
  split; [|split].
  - intros [Hm _]%listed_iff. congruence.
  - subst s. rewrite run_lookup, Hp. case_decide; [|done]. simpl.
    by rewrite not_matching_kept.
  - intros Hin. subst r.
    destruct (patch_wav_files_spec m directory simulate verbose) as (-> & _).
    apply length_without; [apply rglob_wav_NoDup|done].
Qed.

Lemma tagless_entry_is_skipped_witness :
  ("music/s.wav"
     ∉ patched_files (patch_wav_files music_short "music" false true).1) /\
  fs (patch_wav_files music_short "music" false true).2 !! "music/s.wav"
  = Some (Regular (sound (replicate 21 xfe))) /\
  total_files (patch_wav_files music_short "music" false true).1 = 2.
Proof.
  destruct (tagless_entry_is_skipped music_short "music" false true
              "music/s.wav" (Regular (sound (replicate 21 xfe))))
    as (H1 & H2 & H3).
  - vm_compute. reflexivity.
  - reflexivity.
  - split; [exact H1|]. split; [exact H2|].
    rewrite H3.
    + vm_compute. reflexivity.
    + apply list_elem_of_In. vm_compute. auto.
Defined.




(** ** Dry run and patch run *)



(** ** What is printed and what is opened *)









(** ** The command line *)

(** What [main] returns once both checks on the argument pass. *)
Lemma main_dir m a :
  is_dir m (directory a) = true ->
  let run :=
    patch_wav_files m (directory a) (negb (patch a)) (negb (quiet a)) in
  let k := r_extensible_files run.1 in
  main m a
  = mkOutcome 0 (fs run.2)
      (stdout run.2
       ++ [LSummaryRule; LSummaryHeader; LSummaryRule;
           LTotalScanned (total_files run.1); LExtensibleFound k]
       ++ (if patch a && (0 <? k) then [LFilesPatched k] else [])
       ++ (if list_flag a && (0 <? k)
           then LListHeader :: map LListItem (patched_files run.1)
           else []))
      [] (opened run.2).
Proof.
  intros Hd run k. unfold main.
  rewrite (is_dir_exists _ _ Hd), Hd. cbn [negb].
  destruct (patch_wav_files_spec m (directory a) (negb (patch a))
              (negb (quiet a))) as (_ & _ & _ & Hs & _).
  rewrite (is_dir_exists _ _ Hd) in Hs. subst k. fold run in Hs.
  fold run. destruct run as [r s]. simpl in Hs |- *. by rewrite Hs.
Qed.

Lemma main_not_dir m a :
  is_dir m (directory a) = false ->
  main m a
  = mkOutcome 1 m []
      [if path_exists m (directory a)
       then "Error: Path is not a directory: " +:+ directory a
       else "Error: Directory does not exist: " +:+ directory a] [].
Proof.
  intros Hd. unfold main. rewrite Hd.
  by destruct (path_exists m (directory a)).
Qed.


(** X14: without [--patch], [main] leaves every file as it was,
    whatever the other flags and whichever calls fail. *)
Theorem main_without_patch_changes_nothing m a :
  patch a = false -> final_fs (main m a) = m.
Proof.
  intros Hp. destruct (is_dir m (directory a)) eqn:Hd.
  - pose proof (main_dir m a Hd) as Hmain. cbv zeta in Hmain.
    rewrite Hmain, Hp. cbn [final_fs negb].
    apply map_eq. intros q. rewrite run_lookup.
    case_decide; [|done]. destruct (m !! q) as [n|]; [|done]. simpl.
    by rewrite patched_node_dry.
  - by rewrite (main_not_dir m a Hd).
Qed.

Lemma main_without_patch_changes_nothing_witness :
  final_fs (main music (mkArgs "music" false false true)) = music.
Proof.
  apply (main_without_patch_changes_nothing music
           (mkArgs "music" false false true)).
  reflexivity.
Defined.




(** ** Error and progress lines *)









